(** * A data-lake ETL job (etl.py): songs, artists, users, times, songplays

    The job reads a song catalog and an activity log, derives four
    dimension tables and one fact table, and persists each of them with
    full-overwrite semantics.

    A data frame is modelled as the list of its rows, a nullable column as
    an [option], a double by the rational it denotes (so that equality is
    exact), a timestamp as microseconds since the Unix epoch, and the
    output location as a finite map from path to persisted dataset.  The
    two stage functions are written in a small state-and-error monad over
    that map.

    What the job leaves to the engine and to the host is a parameter, the
    session: the order in which rows reach an aggregate after an exchange,
    the conversion of a millisecond count to a timestamp (a double
    division and a local-time conversion), and the calendar functions of
    the session time zone.  Every property holds for every session. *)

From Stdlib Require Import ZArith QArith Qcanon Lia.
From stdpp Require Import base decidable option list sorting numbers strings gmap.

Local Open Scope Z_scope.

(** ** Rows of the input and output tables *)

Module SongRecord.
Record t := mk {
  song_id : option string;
  title : option string;
  artist_id : option string;
  artist_name : option string;
  artist_location : option string;
  artist_latitude : option Qc;
  artist_longitude : option Qc;
  year : option Z;
  duration : option Qc
}.
#[global] Instance eq_dec : EqDecision t.
Proof. solve_decision. Defined.
End SongRecord.

Module Event.
Record t := mk {
  page : option string;
  ts : Z;
  userId : option string;
  firstName : option string;
  lastName : option string;
  gender : option string;
  level : option string;
  sessionId : option Z;
  location : option string;
  userAgent : option string;
  song : option string;
  artist : option string;
  length : option Qc
}.
#[global] Instance eq_dec : EqDecision t.
Proof. solve_decision. Defined.
End Event.

Module Song.
Record t := mk {
  song_id : option string;
  title : option string;
  artist_id : option string;
  year : option Z;
  duration : option Qc
}.
#[global] Instance eq_dec : EqDecision t.
Proof. solve_decision. Defined.
End Song.

Module Artist.
Record t := mk {
  artist_id : option string;
  name : option string;
  location : option string;
  latitude : option Qc;
  longitude : option Qc
}.
#[global] Instance eq_dec : EqDecision t.
Proof. solve_decision. Defined.
End Artist.

Module User.
Record t := mk {
  user_id : option string;
  first_name : option string;
  last_name : option string;
  gender : option string;
  level : option string
}.
#[global] Instance eq_dec : EqDecision t.
Proof. solve_decision. Defined.
End User.

Module Time.
Record t := mk {
  start_time : Z;
  hour : Z;
  day : Z;
  week : Z;
  month : Z;
  year : Z;
  weekday : string
}.
#[global] Instance eq_dec : EqDecision t.
Proof. solve_decision. Defined.
End Time.

Module Songplay.
Record t := mk {
  start_time : Z;
  user_id : option string;
  level : option string;
  song_id : option string;
  artist_id : option string;
  session_id : option Z;
  location : option string;
  user_agent : option string;
  year : Z;
  month : Z
}.
#[global] Instance eq_dec : EqDecision t.
Proof. solve_decision. Defined.
End Songplay.

(** ** The session *)

(** The engine session [spark], with the host it runs on.

    - [exchange]: an aggregate is computed after the rows have been
      redistributed by a hash of the grouping columns; they reach it in an
      order the job does not control, whatever the order of the frame was.
    - [udf_timestamp]: the instant, in microseconds, that the engine
      stores for [datetime.fromtimestamp(epoch / 1000.0)]: a double
      division, a conversion to the local time of the host and the
      conversion of that local time back to an instant.  The events of
      the data model carry epoch milliseconds of dates that conversion
      accepts (years 1 to 9999); nothing else is assumed of its value.
    - [F_hour] ... [F_date_format_E]: the calendar functions of the
      engine, which work in the time zone of the session. *)
Record SparkSession := {
  exchange : ∀ A : Type, list A → list A;
  exchange_perm : ∀ (A : Type) (l : list A), exchange A l ≡ₚ l;
  udf_timestamp : Z → Z;
  F_hour : Z → Z;
  F_dayofmonth : Z → Z;
  F_weekofyear : Z → Z;
  F_month : Z → Z;
  F_year : Z → Z;
  F_date_format_E : Z → string
}.
Arguments exchange _ {A} _.

(** ** The engine: data-frame operations *)

(** [a == b] on two columns: null on either side never compares equal. *)
Definition sql_eq {A} `{EqDecision A} (x y : option A) : bool :=
  match x, y with
  | Some a, Some b => bool_decide (a = b)
  | _, _ => false
  end.

(** [df.select(...)] and [df.where(...)]. *)
Definition select {A B} (f : A → B) (df : list A) : list B := f <$> df.
Definition where_ {A} (p : A → bool) (df : list A) : list A := filter p df.

(** The aggregate behind [dropDuplicates]: of the rows as they arrive, the
    first one of every group of rows that agree on the grouping columns
    (nulls group together). *)
Fixpoint dropDuplicates_seen {A K} `{EqDecision K}
    (key : A → K) (seen : list K) (df : list A) : list A :=
  match df with
  | [] => []
  | r :: df' =>
      if decide (key r ∈ seen) then dropDuplicates_seen key seen df'
      else r :: dropDuplicates_seen key (key r :: seen) df'
  end.

(** [df.dropDuplicates(subset)]: an exchange on the subset columns, then
    the aggregate.  One row of every group survives; which one is up to
    the session, not to the order of [df]. *)
Definition dropDuplicates_subset {A K} `{EqDecision K}
    (spark : SparkSession) (key : A → K) (df : list A) : list A :=
  dropDuplicates_seen key [] (exchange spark df).

(** [df.dropDuplicates()]: the subset is the whole row. *)
Definition dropDuplicates {A} `{EqDecision A}
    (spark : SparkSession) (df : list A) : list A :=
  dropDuplicates_subset spark id df.

(** [df.join(other, cond, "inner")]: every pair that satisfies [cond]. *)
Definition join {A B} (cond : A → B → bool) (df : list A) (other : list B)
    : list (A * B) :=
  a ← df; b ← filter (cond a) other; [(a, b)].

(** ** The output location *)

Inductive Dataset :=
  | SongsData (rows : list Song.t)
  | ArtistsData (rows : list Artist.t)
  | UsersData (rows : list User.t)
  | TimesData (rows : list Time.t)
  | SongplaysData (rows : list Songplay.t).

Inductive error :=
  | AnalysisException (path : string)   (* path missing or schema not inferable *)
  | AttributeError.                     (* column referenced on a frame without it *)

(** A job step: reads and overwrites datasets, and may raise. *)
Definition Job (A : Type) : Type :=
  gmap string Dataset → (error + A) * gmap string Dataset.

#[global] Instance Job_ret : MRet Job := λ A x fs, (inr x, fs).
#[global] Instance Job_bind : MBind Job := λ A B f m fs,
  match m fs with
  | (inl e, fs') => (inl e, fs')
  | (inr x, fs') => f x fs'
  end.

Definition raise {A} (e : error) : Job A := λ fs, (inl e, fs).

(** [spark.read.json(paths)]: with no source object at all the read is
    refused (an empty list of paths has no schema to infer, a glob that
    matches nothing is a missing path). *)
Definition read_json {R} (located : list (list R)) : Job (list R) :=
  match located with
  | [] => raise (AnalysisException "json")
  | _ => mret (concat located)
  end.

(** [df.<name>], where [df] has the schema of the frame [read]: the schema
    is inferred from the records, each of which carries every field of the
    data model (possibly null), so only a frame read from objects that
    hold no record lacks the column. *)
Definition column {R} (read : list R) (name : string) : Job unit :=
  match read with
  | [] => raise AttributeError
  | _ => mret ()
  end.

(** The column references of one expression, resolved from left to
    right. *)
Fixpoint columns {R} (read : list R) (names : list string) : Job unit :=
  match names with
  | [] => mret ()
  | name :: names' => _ ← column read name; columns read names'
  end.

(** [table.write.parquet(path, mode='overwrite')]. *)
Definition write_parquet (path : string) (d : Dataset) : Job unit :=
  λ fs, (inr (), <[path := d]> fs).

(** [spark.read.parquet(path)]. *)
Definition read_parquet (path : string) : Job Dataset :=
  λ fs, match fs !! path with
        | Some d => (inr d, fs)
        | None => (inl (AnalysisException path), fs)
        end.

(** ** Locating the input *)

(** What a stage finds under [input_data].  For an "s3a://" address it
    lists the objects of the input bucket under the prefix of the dataset,
    each with its key; for a local directory it hands the engine a glob
    pattern, and the engine reads the files the pattern matches.  Every
    object or file comes with the records it holds. *)
Inductive Input (R : Type) :=
  | S3 (listing : list (string * list R))
  | Local (matched : list (list R)).
Arguments S3 {R} listing.
Arguments Local {R} matched.

(** [key.endswith(suffix)]. *)
Definition endswith (key suffix : string) : bool :=
  let n := String.length key in
  let m := String.length suffix in
  (m <=? n)%nat && bool_decide (String.substring (n - m) m key = suffix).

(** The source objects handed to [spark.read.json]: of a listing, the
    objects whose key ends with ".json". *)
Definition locate {R} (input_data : Input R) : list (list R) :=
  match input_data with
  | S3 listing => snd <$> filter (λ o, endswith o.1 ".json") listing
  | Local matched => matched
  end.

(** ** Stage 1: the song catalog *)

Definition song_columns (r : SongRecord.t) : Song.t :=
  Song.mk (SongRecord.song_id r) (SongRecord.title r) (SongRecord.artist_id r)
          (SongRecord.year r) (SongRecord.duration r).

Definition artist_columns (r : SongRecord.t) : Artist.t :=
  Artist.mk (SongRecord.artist_id r) (SongRecord.artist_name r)
            (SongRecord.artist_location r) (SongRecord.artist_latitude r)
            (SongRecord.artist_longitude r).

Definition songs_table (spark : SparkSession) (df : list SongRecord.t)
    : list Song.t :=
  dropDuplicates spark (select song_columns df).

Definition artists_table (spark : SparkSession) (df : list SongRecord.t)
    : list Artist.t :=
  dropDuplicates spark (select artist_columns df).

Definition process_song_data (spark : SparkSession)
    (input_data : Input SongRecord.t) (output_data : string) : Job unit :=
  let song_data := locate input_data in
  df ← read_json song_data;
  _ ← columns df ["song_id"; "title"; "artist_id"; "year"; "duration"];
  _ ← write_parquet (output_data +:+ "/songs")
        (SongsData (songs_table spark df));
  _ ← columns df ["artist_id"; "artist_name"; "artist_location";
                  "artist_latitude"; "artist_longitude"];
  write_parquet (output_data +:+ "/artists")
    (ArtistsData (artists_table spark df)).

(** ** Stage 2: the activity log *)

(** [lambda epoch: datetime.fromtimestamp(epoch / 1000.0)], registered as
    a function that returns a timestamp. *)
Definition get_datetime (spark : SparkSession) (epoch : Z) : Z :=
  udf_timestamp spark epoch.

Definition user_columns (e : Event.t) : User.t :=
  User.mk (Event.userId e) (Event.firstName e) (Event.lastName e)
          (Event.gender e) (Event.level e).

Definition user_key (u : User.t)
    : option string * option string * option string * option string :=
  (User.user_id u, User.first_name u, User.last_name u, User.gender u).

(** [df.sort('ts', ascending=False)]. *)
Definition ts_desc (a b : Event.t) : Prop := Event.ts b ≤ Event.ts a.

#[global] Instance ts_desc_dec : RelDecision ts_desc.
Proof. intros a b. unfold ts_desc. apply _. Defined.

Definition sort_ts_desc (df : list Event.t) : list Event.t :=
  merge_sort ts_desc df.

Definition users_table (spark : SparkSession) (df : list Event.t)
    : list User.t :=
  dropDuplicates_subset spark user_key
    (select user_columns (sort_ts_desc df)).

(** [df.withColumn("start_time", get_datetime(df.ts))]. *)
Definition with_start_time (spark : SparkSession) (df : list Event.t)
    : list (Event.t * Z) :=
  (λ e, (e, get_datetime spark (Event.ts e))) <$> df.

Definition time_columns (spark : SparkSession) (r : Event.t * Z) : Time.t :=
  let t := r.2 in
  Time.mk t (F_hour spark t) (F_dayofmonth spark t) (F_weekofyear spark t)
          (F_month spark t) (F_year spark t) (F_date_format_E spark t).

Definition time_table (spark : SparkSession) (df : list (Event.t * Z))
    : list Time.t :=
  select (time_columns spark) df.

Definition artist_cond (r : Event.t * Z) (a : Artist.t) : bool :=
  sql_eq (Event.artist r.1) (Artist.name a).

Definition song_cond (ra : Event.t * Z * Artist.t) (s : Song.t) : bool :=
  sql_eq (Artist.artist_id ra.2) (Song.artist_id s)
  && sql_eq (Event.song ra.1.1) (Song.title s)
  && sql_eq (Event.length ra.1.1) (Song.duration s).

Definition songplay_columns (spark : SparkSession)
    (j : Event.t * Z * Artist.t * Song.t) : Songplay.t :=
  let '(e, t, a, s) := j in
  Songplay.mk t (Event.userId e) (Event.level e) (Song.song_id s)
              (Artist.artist_id a) (Event.sessionId e) (Event.location e)
              (Event.userAgent e) (F_year spark t) (F_month spark t).

Definition songplays_table (spark : SparkSession) (df : list (Event.t * Z))
    (artist_df : list Artist.t) (song_df : list Song.t) : list Songplay.t :=
  select (songplay_columns spark)
    (join song_cond (join artist_cond df artist_df) song_df).

(** Reading a dimension back: the frame must carry the columns the join
    refers to. *)
Definition read_songs (path : string) : Job (list Song.t) :=
  d ← read_parquet path;
  match d with SongsData rows => mret rows | _ => raise AttributeError end.

Definition read_artists (path : string) : Job (list Artist.t) :=
  d ← read_parquet path;
  match d with ArtistsData rows => mret rows | _ => raise AttributeError end.

Definition next_song (e : Event.t) : bool :=
  sql_eq (Event.page e) (Some "NextSong").

(** The frame [df] is rebound twice (filtered, then extended with
    start_time); both keep the columns of the frame read, [log]. *)
Definition process_log_data (spark : SparkSession)
    (input_data : Input Event.t) (output_data : string) : Job unit :=
  let log_data := locate input_data in
  log ← read_json log_data;
  _ ← columns log ["page"];
  let df := where_ next_song log in
  _ ← columns log ["userId"; "firstName"; "lastName"; "gender"; "level"];
  _ ← write_parquet (output_data +:+ "/users")
        (UsersData (users_table spark df));
  _ ← columns log ["ts"];
  let df := with_start_time spark df in
  _ ← write_parquet (output_data +:+ "/times")
        (TimesData (time_table spark df));
  song_df ← read_songs (output_data +:+ "/songs");
  artist_df ← read_artists (output_data +:+ "/artists");
  _ ← columns log ["artist"; "song"; "length"; "userId"; "level";
                   "sessionId"; "location"; "userAgent"];
  write_parquet (output_data +:+ "/songplays")
    (SongplaysData (songplays_table spark df artist_df song_df)).

(** [main]: the session is created for the run; the input is the local
    directory "data/input", and [song_files] and [log_files] are the files
    the two glob patterns match there. *)
Definition main (spark : SparkSession)
    (song_files : list (list SongRecord.t))
    (log_files : list (list Event.t)) : Job unit :=
  let output_data := "data/output" in
  _ ← process_song_data spark (Local song_files) output_data;
  process_log_data spark (Local log_files) output_data.

(** ** Vocabulary of the properties *)

(** The store after the two dimension writes of stage 2. *)
Definition after_dimensions (spark : SparkSession) (df : list Event.t)
    (out : string) (fs : gmap string Dataset) : gmap string Dataset :=
  <[out +:+ "/times" := TimesData (time_table spark (with_start_time spark df))]>
    (<[out +:+ "/users" := UsersData (users_table spark df)]> fs).

(** What stage 2 comes to once its two dimension tables are written: the
    outcome of reading the songs and artists tables back and, when both
    are there, of the write of the fact table. *)
Definition stage2_outcome (spark : SparkSession) (df : list Event.t)
    (out : string) (fs : gmap string Dataset)
    : (error + ()) * gmap string Dataset :=
  let fs' := after_dimensions spark df out fs in
  match fs !! (out +:+ "/songs"), fs !! (out +:+ "/artists") with
  | None, _ => (inl (AnalysisException (out +:+ "/songs")), fs')
  | Some (SongsData song_df), Some (ArtistsData artist_df) =>
      (inr (), <[out +:+ "/songplays" :=
                   SongplaysData (songplays_table spark (with_start_time spark df)
                                                  artist_df song_df)]> fs')
  | Some (SongsData _), None =>
      (inl (AnalysisException (out +:+ "/artists")), fs')
  | Some _, _ => (inl AttributeError, fs')
  end.

(** The error of a stage whose input holds no record. *)
Definition no_record_error {R} (located : list (list R)) : error :=
  match located with
  | [] => AnalysisException "json"
  | _ :: _ => AttributeError
  end.

(** Two persisted datasets of one kind with the same rows, in any order. *)
Definition rows_equiv (d1 d2 : Dataset) : Prop :=
  match d1, d2 with
  | SongsData r1, SongsData r2 => r1 ≡ₚ r2
  | ArtistsData r1, ArtistsData r2 => r1 ≡ₚ r2
  | UsersData r1, UsersData r2 => r1 ≡ₚ r2
  | TimesData r1, TimesData r2 => r1 ≡ₚ r2
  | SongplaysData r1, SongplaysData r2 => r1 ≡ₚ r2
  | _, _ => False
  end.



(** An event matches an artist row and a song row exactly: artist name,
    song title and length are present and equal to name, title and
    duration, and the two rows carry one and the same artist_id. *)
Definition exact_match (e : Event.t) (a : Artist.t) (s : Song.t) : Prop :=
  (∃ n, Event.artist e = Some n ∧ Artist.name a = Some n) ∧
  (∃ t, Event.song e = Some t ∧ Song.title s = Some t) ∧
  (∃ d, Event.length e = Some d ∧ Song.duration s = Some d) ∧
  (∃ i, Artist.artist_id a = Some i ∧ Song.artist_id s = Some i).

(** The fact rows one event gives rise to. *)
Definition songplays_of (spark : SparkSession) (artist_df : list Artist.t)
    (song_df : list Song.t) (e : Event.t) : list Songplay.t :=
  songplays_table spark (with_start_time spark [e]) artist_df song_df.

(** The two conditions of the join, for an event, an artist row and a
    song row. *)
Definition exact_matchb (spark : SparkSession)
    (e : Event.t) (a : Artist.t) (s : Song.t) : bool :=
  artist_cond (e, get_datetime spark (Event.ts e)) a
  && song_cond (e, get_datetime spark (Event.ts e), a) s.

(** ** Sample sessions *)

(** The calendar of a session in UTC: the fields of an instant, on the
    proleptic Gregorian calendar. *)
Definition MICROS_PER_HOUR : Z := 3600000000.
Definition MICROS_PER_DAY : Z := 86400000000.

Definition epoch_day (t : Z) : Z := t / MICROS_PER_DAY.

(** Year, month and day of month of a day count (proleptic Gregorian),
    computed on a year that starts on the first of March. *)
Definition civil_from_days (z : Z) : Z * Z * Z :=
  let z := z + 719468 in
  let era := z / 146097 in
  let doe := z mod 146097 in
  let yoe := (doe - doe / 1460 + doe / 36524 - doe / 146096) / 365 in
  let doy := doe - (365 * yoe + yoe / 4 - yoe / 100) in
  let mp := (5 * doy + 2) / 153 in
  let d := doy - (153 * mp + 2) / 5 + 1 in
  let m := if mp <? 10 then mp + 3 else mp - 9 in
  let y := yoe + era * 400 + (if m <=? 2 then 1 else 0) in
  (y, m, d).

(** The Gregorian rules. *)
Definition is_leap (y : Z) : bool :=
  (y mod 4 =? 0) && (negb (y mod 100 =? 0) || (y mod 400 =? 0)).

Definition days_in_month (y m : Z) : Z :=
  if m =? 2 then (if is_leap y then 29 else 28)
  else if (m =? 4) || (m =? 6) || (m =? 9) || (m =? 11) then 30
  else 31.

Fixpoint days_before_month_nat (y : Z) (m : nat) : Z :=
  match m with
  | O => 0
  | S k => days_before_month_nat y k + days_in_month y (Z.of_nat (S k))
  end.

(** Days of year [y] that precede its month [m]. *)
Definition days_before_month (y m : Z) : Z :=
  days_before_month_nat y (Z.to_nat (m - 1)).

(** Days that precede year [y], counted from 0001-01-01. *)
Definition days_before_year (y : Z) : Z :=
  let p := y - 1 in 365 * p + p / 4 - p / 100 + p / 400.

(** Days since 1970-01-01 of a calendar date. *)
Definition days_from_civil (y m d : Z) : Z :=
  days_before_year y + days_before_month y m + (d - 1) - 719162.

(** Day of the week of a day count, Monday being 0 (1970-01-01 was a
    Thursday). *)
Definition day_of_week (z : Z) : Z := (z + 3) mod 7.

Definition weekday_names : list string :=
  ["Mon"; "Tue"; "Wed"; "Thu"; "Fri"; "Sat"; "Sun"].

Definition weekday_name (i : Z) : string :=
  default "" (weekday_names !! Z.to_nat i).

(** Hour, year, month and day of month of an instant. *)
Definition utc_hour (t : Z) : Z := (t mod MICROS_PER_DAY) / MICROS_PER_HOUR.
Definition utc_year (t : Z) : Z := (civil_from_days (epoch_day t)).1.1.
Definition utc_month (t : Z) : Z := (civil_from_days (epoch_day t)).1.2.
Definition utc_dayofmonth (t : Z) : Z := (civil_from_days (epoch_day t)).2.

(** The ISO week of a day is the week, within the year of its Thursday,
    of that Thursday. *)
Definition iso_year (z : Z) : Z :=
  (civil_from_days (z - day_of_week z + 3)).1.1.

Definition iso_week (z : Z) : Z :=
  let thursday := z - day_of_week z + 3 in
  (thursday - days_from_civil (iso_year z) 1 1) / 7 + 1.

Definition utc_weekofyear (t : Z) : Z := iso_week (epoch_day t).

(** The abbreviated name of the day of the week. *)
Definition utc_date_format_E (t : Z) : string :=
  weekday_name (day_of_week (epoch_day t)).

(** A session that runs on one partition (an exchange leaves the rows in
    place), on a host in UTC, for timestamps that the double division
    renders exactly. *)
Definition utc_session : SparkSession := {|
  exchange := λ _ l, l;
  exchange_perm := λ _ l, reflexivity l;
  udf_timestamp := λ epoch, 1000 * epoch;
  F_hour := utc_hour;
  F_dayofmonth := utc_dayofmonth;
  F_weekofyear := utc_weekofyear;
  F_month := utc_month;
  F_year := utc_year;
  F_date_format_E := utc_date_format_E
|}.

(** A session on the same host whose exchanges deliver the rows in the
    reverse order. *)
Definition reversing_session : SparkSession := {|
  exchange := λ _ l, reverse l;
  exchange_perm := λ _ l, reverse_Permutation l;
  udf_timestamp := λ epoch, 1000 * epoch;
  F_hour := utc_hour;
  F_dayofmonth := utc_dayofmonth;
  F_weekofyear := utc_weekofyear;
  F_month := utc_month;
  F_year := utc_year;
  F_date_format_E := utc_date_format_E
|}.

(** ** Sample inputs: the scenarios of the specification *)

Definition seconds (n : Z) : Qc := Q2Qc (inject_Z n).

(** Scenario A: one catalog record. *)
Definition catalog_A : SongRecord.t :=
  SongRecord.mk (Some "S1") (Some "Song A") (Some "AR1") (Some "Artist X")
                None None None (Some 2000) (Some (seconds 200)).

(** The same artist, recorded with a location. *)
Definition catalog_A_located : SongRecord.t :=
  SongRecord.mk (Some "S2") (Some "Song B") (Some "AR1") (Some "Artist X")
                (Some "Paris") None None (Some 2001) (Some (seconds 180)).

(** Scenarios B and C: plays of "Song A" by user 1. *)
Definition play (ts : Z) (level : string) : Event.t :=
  Event.mk (Some "NextSong") ts (Some "1") (Some "Ann") (Some "Lee")
           (Some "F") (Some level) (Some 7) None None
           (Some "Song A") (Some "Artist X") (Some (seconds 200)).

Definition play_free : Event.t := play 1000 "free".
Definition play_paid : Event.t := play 2000 "paid".

(** A play whose artist is null. *)
Definition play_no_artist : Event.t :=
  Event.mk (Some "NextSong") 3000 (Some "1") (Some "Ann") (Some "Lee")
           (Some "F") (Some "paid") (Some 7) None None
           (Some "Song A") None (Some (seconds 200)).

Definition user_free : User.t :=
  User.mk (Some "1") (Some "Ann") (Some "Lee") (Some "F") (Some "free").

Definition user_paid : User.t :=
  User.mk (Some "1") (Some "Ann") (Some "Lee") (Some "F") (Some "paid").

(** The output location after stage 1 has run on scenario A. *)
Definition store_A : gmap string Dataset :=
  (process_song_data utc_session (Local [[catalog_A]]) "data/output" ∅).2.

(** * Properties *)

(** Closes a decidable goal on concrete data by evaluating its decision. *)
Ltac by_compute :=
  lazymatch goal with
  | |- ?P => apply (bool_decide_unpack P); vm_compute; exact I
  end.

(** ** The scenarios, run on the sample sessions *)

Example scenario_A :
  songs_table utc_session [catalog_A]
  = [Song.mk (Some "S1") (Some "Song A") (Some "AR1") (Some 2000)
             (Some (seconds 200))] ∧
  artists_table utc_session [catalog_A]
  = [Artist.mk (Some "AR1") (Some "Artist X") None None None].
Proof. split; reflexivity. Qed.

Example scenario_B :
  users_table utc_session (where_ next_song [play_free; play_paid])
  = [user_paid].
Proof. reflexivity. Qed.

Example scenario_C :
  songplays_table utc_session (with_start_time utc_session [play_free])
    (artists_table utc_session [catalog_A]) (songs_table utc_session [catalog_A])
  = [Songplay.mk 1000000 (Some "1") (Some "free") (Some "S1") (Some "AR1")
                 (Some 7) None None 1970 1].
Proof. vm_compute. reflexivity. Qed.

Example scenario_D :
  songplays_table utc_session (with_start_time utc_session [play_no_artist])
    (artists_table utc_session [catalog_A]) (songs_table utc_session [catalog_A])
  = [].
Proof. reflexivity. Qed.

Example scenario_E :
  let home := Event.mk (Some "Home") 1500 (Some "1") (Some "Ann") (Some "Lee")
                (Some "F") (Some "free") (Some 7) None None None None None in
  where_ next_song [home] = [].
Proof. reflexivity. Qed.

Example locate_listing :
  locate (S3 [("song_data/A/A/A/TRAAAAW128F429D538.json", [catalog_A]);
              ("song_data/.DS_Store", []);
              ("song_data/A/B/C/TRABCAW128F429D539.json", [catalog_A_located])])
  = [[catalog_A]; [catalog_A_located]].
Proof. reflexivity. Qed.

Example time_of_2018_11_11 :
  time_columns utc_session (play_free, get_datetime utc_session 1541903636796)
  = Time.mk 1541903636796000 2 11 45 11 2018 "Sun".
Proof. vm_compute. reflexivity. Qed.

Example full_run :
  (main utc_session [[catalog_A]] [[play_free; play_paid]] ∅).1 = inr ().
Proof. vm_compute. reflexivity. Qed.

(** ** Deduplication *)

Section dedup.
Context {A K : Type} `{EqDecision K} (key : A → K).

(** A kept row is the first row of the frame with its key, and its key
    had not been seen before. *)
Lemma dropDuplicates_seen_first seen df x :
  x ∈ dropDuplicates_seen key seen df →
  (key x ∉ seen) ∧
  ∃ pre post, df = pre ++ x :: post ∧ ∀ y, y ∈ pre → key y ≠ key x.
Proof.
  revert seen. induction df as [|r df IH]; intros seen Hx; simpl in Hx.
  - by apply elem_of_nil in Hx.
  - destruct (decide (key r ∈ seen)) as [Hr|Hr].
    + destruct (IH _ Hx) as (Hns & pre & post & -> & Hpre).
      split; [done|]. exists (r :: pre), post. split; [done|].
      intros y [->|Hy]%elem_of_cons; [congruence|by apply Hpre].
    + apply elem_of_cons in Hx as [->|Hx].
      * split; [done|]. exists [], df. split; [done|].
        intros y Hy. by apply elem_of_nil in Hy.
      * destruct (IH _ Hx) as (Hns & pre & post & -> & Hpre).
        apply not_elem_of_cons in Hns as [Hne Hns].
        split; [done|]. exists (r :: pre), post. split; [done|].
        intros y [->|Hy]%elem_of_cons; [congruence|by apply Hpre].
Qed.

(** Every key of the frame that had not been seen keeps a row. *)
Lemma dropDuplicates_seen_covers seen df x :
  x ∈ df → key x ∉ seen →
  ∃ y, y ∈ dropDuplicates_seen key seen df ∧ key y = key x.
Proof.
  revert seen. induction df as [|r df IH]; intros seen Hx Hns.
  - by apply elem_of_nil in Hx.
  - simpl. destruct (decide (key r ∈ seen)) as [Hr|Hr].
    + apply elem_of_cons in Hx as [->|Hx]; [done|]. by apply IH.
    + destruct (decide (key r = key x)) as [Heq|Hne].
      * exists r. split; [apply elem_of_cons; by left|done].
      * apply elem_of_cons in Hx as [->|Hx]; [done|].
        destruct (IH (key r :: seen) Hx) as (y & Hy & Hk).
        { apply not_elem_of_cons. split; [congruence|done]. }
        exists y. split; [apply elem_of_cons; by right|done].
Qed.

(** No two kept rows share a key. *)
Lemma dropDuplicates_seen_NoDup seen df :
  NoDup (key <$> dropDuplicates_seen key seen df).
Proof.
  revert seen. induction df as [|r df IH]; intros seen; simpl.
  - constructor.
  - destruct (decide (key r ∈ seen)) as [Hr|Hr]; [apply IH|].
    rewrite fmap_cons. constructor; [|apply IH].
    intros (y & Hk & Hy)%list_elem_of_fmap.
    apply dropDuplicates_seen_first in Hy as [Hns _].
    apply Hns. rewrite <- Hk. apply elem_of_cons. by left.
Qed.

(** Whatever the session, the rows kept for a subset of columns are rows
    of the frame, one for every key of the frame. *)
Lemma elem_of_dropDuplicates_subset spark df x :
  x ∈ dropDuplicates_subset spark key df → x ∈ df.
Proof.
  unfold dropDuplicates_subset.
  intros (_ & pre & post & Hsplit & _)%dropDuplicates_seen_first.
  rewrite <- (exchange_perm spark), Hsplit.
  apply elem_of_app. right. apply elem_of_cons. by left.
Qed.

Lemma dropDuplicates_subset_covers spark df x :
  x ∈ df → ∃ y, y ∈ dropDuplicates_subset spark key df ∧ key y = key x.
Proof.
  intros Hx. unfold dropDuplicates_subset.
  apply dropDuplicates_seen_covers; [|apply not_elem_of_nil].
  by rewrite (exchange_perm spark).
Qed.
End dedup.

Lemma elem_of_dropDuplicates {A} `{EqDecision A} spark (df : list A) x :
  x ∈ dropDuplicates spark df ↔ x ∈ df.
Proof.
  unfold dropDuplicates. split; [apply elem_of_dropDuplicates_subset|].
  intros Hx.
  destruct (dropDuplicates_subset_covers id spark df x Hx) as (y & Hy & Hk).
  simpl in Hk. by subst y.
Qed.

Lemma NoDup_dropDuplicates {A} `{EqDecision A} spark (df : list A) :
  NoDup (dropDuplicates spark df).
Proof.
  unfold dropDuplicates, dropDuplicates_subset.
  rewrite <- (list_fmap_id (dropDuplicates_seen id [] _)).
  apply dropDuplicates_seen_NoDup.
Qed.



(** Two different members make a list at least two long. *)
Lemma two_members_length {A} (l : list A) x y :
  x ∈ l → y ∈ l → x ≠ y → (2 ≤ length l)%nat.
Proof.
  intros Hx Hy Hne. destruct l as [|a [|b l]]; simpl; [| |lia].
  - by apply elem_of_nil in Hx.
  - apply list_elem_of_singleton in Hx, Hy. congruence.
Qed.

(** ** Stage 1: songs and artists *)




(** C7: the artists table is the projection of the catalog with exact
    full-row duplicates removed and nothing else; two records with one
    artist_id that differ in location, latitude or longitude therefore
    leave two different rows with that artist_id. *)
Theorem artists_table_full_row_dedup (spark : SparkSession)
    (df : list SongRecord.t) (r1 r2 : SongRecord.t) :
  r1 ∈ df → r2 ∈ df →
  SongRecord.artist_id r1 = SongRecord.artist_id r2 →
  SongRecord.artist_location r1 ≠ SongRecord.artist_location r2
  ∨ SongRecord.artist_latitude r1 ≠ SongRecord.artist_latitude r2
  ∨ SongRecord.artist_longitude r1 ≠ SongRecord.artist_longitude r2 →
  NoDup (artists_table spark df) ∧
  (∀ row, row ∈ artists_table spark df ↔ row ∈ select artist_columns df) ∧
  artist_columns r1 ∈ artists_table spark df ∧
  artist_columns r2 ∈ artists_table spark df ∧
  artist_columns r1 ≠ artist_columns r2 ∧
  Artist.artist_id (artist_columns r2) = Artist.artist_id (artist_columns r1) ∧
  (2 ≤ length (filter (λ row, Artist.artist_id row = SongRecord.artist_id r1)
                      (artists_table spark df)))%nat.
Proof.
  intros H1 H2 Hid Hdiff.
  split; [apply NoDup_dropDuplicates|]. split.
  { intros row. apply elem_of_dropDuplicates. }
  assert (Hin : ∀ r, r ∈ df → artist_columns r ∈ artists_table spark df).
  { intros r Hr. apply elem_of_dropDuplicates, list_elem_of_fmap. eauto. }
  assert (Hne : artist_columns r1 ≠ artist_columns r2).
  { intros Heq. unfold artist_columns in Heq.
    injection Heq as _ _ Hloc Hlat Hlon. tauto. }
  split_and!; [by apply Hin|by apply Hin|done|simpl; congruence|].
  apply (two_members_length _ (artist_columns r1) (artist_columns r2));
    [| |done]; apply list_elem_of_filter; (split; [simpl; congruence|auto]).
Qed.

Lemma artists_table_full_row_dedup_witness :
  let df := [catalog_A; catalog_A_located; catalog_A] in
  catalog_A ∈ df ∧ catalog_A_located ∈ df ∧
  SongRecord.artist_id catalog_A = SongRecord.artist_id catalog_A_located ∧
  SongRecord.artist_location catalog_A
    ≠ SongRecord.artist_location catalog_A_located ∧
  artists_table utc_session df
    = [artist_columns catalog_A; artist_columns catalog_A_located] ∧
  (2 ≤ length (filter (λ row, Artist.artist_id row = Some "AR1")
                      (artists_table utc_session df)))%nat.
Proof.
  intros df.
  assert (H1 : catalog_A ∈ df) by by_compute.
  assert (H2 : catalog_A_located ∈ df) by by_compute.
  assert (Hloc : SongRecord.artist_location catalog_A
                 ≠ SongRecord.artist_location catalog_A_located) by done.
  split_and!; [done|done|reflexivity|done|reflexivity|].
  apply (artists_table_full_row_dedup utc_session df catalog_A catalog_A_located);
    [done|done|reflexivity|by left].
Defined.

(** ** Stage 2: users *)

#[local] Instance ts_desc_total : Total ts_desc.
Proof. intros a b. unfold ts_desc. lia. Qed.

#[local] Instance ts_desc_trans : Transitive ts_desc.
Proof. intros a b c. unfold ts_desc. lia. Qed.

Lemma elem_of_sort_ts_desc (df : list Event.t) e :
  e ∈ sort_ts_desc df ↔ e ∈ df.
Proof. unfold sort_ts_desc. by rewrite merge_sort_Permutation. Qed.

Lemma elem_of_where_next_song (events : list Event.t) e :
  e ∈ where_ next_song events ↔
  e ∈ events ∧ Event.page e = Some "NextSong".
Proof.
  unfold where_. rewrite list_elem_of_filter, (comm and).
  apply and_iff_compat_l. unfold next_song, sql_eq.
  destruct (Event.page e) as [p|]; simpl; [|by split].
  rewrite bool_decide_spec. split; congruence.
Qed.

(** A row of the users table is the projection of an event of the frame. *)
Lemma users_table_from_event spark (df : list Event.t) (row : User.t) :
  row ∈ users_table spark df → ∃ e, e ∈ df ∧ row = user_columns e.
Proof.
  unfold users_table, select. intros Hrow%elem_of_dropDuplicates_subset.
  apply list_elem_of_fmap in Hrow as (e & -> & He).
  exists e. split; [by apply elem_of_sort_ts_desc|done].
Qed.

(** C1 fails when the exchange undoes the sort: on the two plays of user 1
    (free at ts 1000, paid at ts 2000) a session that delivers the rows
    in reverse keeps the row of the older event, so the level of the only
    row of the users table is not that of the latest event of its key. *)
Theorem users_table_level_not_latest :
  let events := [play_free; play_paid] in
  users_table reversing_session (where_ next_song events) = [user_free] ∧
  ¬ (∀ row, row ∈ users_table reversing_session (where_ next_song events) →
       ∃ e, e ∈ events ∧ Event.page e = Some "NextSong" ∧
         user_key (user_columns e) = user_key row ∧
         User.level row = Event.level e ∧
         ∀ e', e' ∈ events → Event.page e' = Some "NextSong" →
           user_key (user_columns e') = user_key row →
           Event.ts e' ≤ Event.ts e).
Proof.
  intros events.
  assert (Htable : users_table reversing_session (where_ next_song events)
                   = [user_free]) by reflexivity.
  split; [done|]. intros Hclaim.
  destruct (Hclaim user_free) as (e & He & _ & _ & Hlevel & Hmax).
  { rewrite Htable. by apply list_elem_of_singleton. }
  assert (Hpaid : Event.ts play_paid ≤ Event.ts e).
  { apply Hmax; [by_compute|reflexivity|reflexivity]. }
  apply list_elem_of_In in He. simpl in He.
  destruct He as [<-|[<-|[]]]; [vm_compute in Hpaid; by apply Hpaid|].
  vm_compute in Hlevel. discriminate Hlevel.
Qed.

(** C9: a row of the users table is the projection of one "NextSong"
    event: its five values are those of that single event. *)
Theorem users_table_row_of_one_event (spark : SparkSession)
    (events : list Event.t) (row : User.t) :
  row ∈ users_table spark (where_ next_song events) →
  ∃ e, e ∈ events ∧ Event.page e = Some "NextSong" ∧
    User.user_id row = Event.userId e ∧
    User.first_name row = Event.firstName e ∧
    User.last_name row = Event.lastName e ∧
    User.gender row = Event.gender e ∧
    User.level row = Event.level e.
Proof.
  intros (e & He & ->)%users_table_from_event.
  apply elem_of_where_next_song in He as [He Hp].
  exists e. by split_and!.
Qed.

Lemma users_table_row_of_one_event_witness :
  user_free ∈ users_table reversing_session
                (where_ next_song [play_free; play_paid]) ∧
  ∃ e, e ∈ [play_free; play_paid] ∧ Event.page e = Some "NextSong" ∧
    User.user_id user_free = Event.userId e ∧
    User.first_name user_free = Event.firstName e ∧
    User.last_name user_free = Event.lastName e ∧
    User.gender user_free = Event.gender e ∧
    User.level user_free = Event.level e.
Proof.
  split; [by_compute|].
  apply (users_table_row_of_one_event reversing_session
           [play_free; play_paid] user_free).
  by_compute.
Defined.

(** ** Running the stages *)

Lemma path_inj (root a b : string) : root +:+ a = root +:+ b → a = b.
Proof. induction root as [|c root IH]; simpl; [done|]. intros [=]. auto. Qed.

Lemma path_ne (root a b : string) : a ≠ b → root +:+ a ≠ root +:+ b.
Proof. intros Hne Heq. by apply Hne, (path_inj root). Qed.

Section steps.
Context {A : Type} (fs : gmap string Dataset).

Lemma read_json_bind {R} (located : list (list R)) (k : list R → Job A) :
  located ≠ [] → (read_json located ≫= k) fs = k (concat located) fs.
Proof. by destruct located. Qed.

Lemma read_json_bind_nil {R} (k : list R → Job A) :
  (read_json [] ≫= k) fs = (inl (AnalysisException "json"), fs).
Proof. reflexivity. Qed.

(** On a frame read with a record every column resolves. *)
Lemma columns_bind_some {R} (read : list R) names (k : () → Job A) :
  read ≠ [] → (columns read names ≫= k) fs = k () fs.
Proof.
  intros Hne. destruct read as [|r read]; [done|]. clear Hne.
  induction names as [|name names IH]; [done|]. exact IH.
Qed.

(** On a frame read without a record the first reference raises. *)
Lemma columns_bind_none {R} names (k : () → Job A) :
  names ≠ [] → (columns (@nil R) names ≫= k) fs = (inl AttributeError, fs).
Proof. by destruct names. Qed.

Lemma write_parquet_bind path d (k : () → Job A) :
  (write_parquet path d ≫= k) fs = k () (<[path := d]> fs).
Proof. reflexivity. Qed.

Lemma read_songs_bind_some path (k : list Song.t → Job A) rows :
  fs !! path = Some (SongsData rows) →
  (read_songs path ≫= k) fs = k rows fs.
Proof.
  intros Hl. unfold read_songs, read_parquet, mbind, Job_bind.
  by rewrite Hl.
Qed.

Lemma read_artists_bind_some path (k : list Artist.t → Job A) rows :
  fs !! path = Some (ArtistsData rows) →
  (read_artists path ≫= k) fs = k rows fs.
Proof.
  intros Hl. unfold read_artists, read_parquet, mbind, Job_bind.
  by rewrite Hl.
Qed.

Lemma read_songs_bind_none path (k : list Song.t → Job A) :
  fs !! path = None →
  (read_songs path ≫= k) fs = (inl (AnalysisException path), fs).
Proof.
  intros Hl. unfold read_songs, read_parquet, mbind, Job_bind.
  by rewrite Hl.
Qed.

Lemma read_artists_bind_none path (k : list Artist.t → Job A) :
  fs !! path = None →
  (read_artists path ≫= k) fs = (inl (AnalysisException path), fs).
Proof.
  intros Hl. unfold read_artists, read_parquet, mbind, Job_bind.
  by rewrite Hl.
Qed.

(** A dataset of another kind lacks the columns the join refers to. *)
Lemma read_songs_bind_other path (k : list Song.t → Job A) d :
  fs !! path = Some d → (∀ rows, d ≠ SongsData rows) →
  (read_songs path ≫= k) fs = (inl AttributeError, fs).
Proof.
  intros Hl Hd. unfold read_songs, read_parquet, mbind, Job_bind.
  rewrite Hl. destruct d; try done. by edestruct Hd.
Qed.

Lemma read_artists_bind_other path (k : list Artist.t → Job A) d :
  fs !! path = Some d → (∀ rows, d ≠ ArtistsData rows) →
  (read_artists path ≫= k) fs = (inl AttributeError, fs).
Proof.
  intros Hl Hd. unfold read_artists, read_parquet, mbind, Job_bind.
  rewrite Hl. destruct d; try done. by edestruct Hd.
Qed.
End steps.

Lemma concat_nonempty {R} (located : list (list R)) :
  concat located ≠ [] → located ≠ [].
Proof. by intros Hne ->. Qed.

Lemma process_song_data_some spark input_data out fs :
  let df := concat (locate input_data) in
  df ≠ [] →
  process_song_data spark input_data out fs
  = (inr (), <[out +:+ "/artists" := ArtistsData (artists_table spark df)]>
               (<[out +:+ "/songs" := SongsData (songs_table spark df)]> fs)).
Proof.
  intros df Hne. unfold process_song_data. cbv zeta.
  rewrite read_json_bind by by apply concat_nonempty.
  rewrite columns_bind_some, write_parquet_bind by done.
  by rewrite columns_bind_some by done.
Qed.

Lemma process_song_data_none spark input_data out fs :
  concat (locate input_data) = [] →
  process_song_data spark input_data out fs
  = (inl (no_record_error (locate input_data)), fs).
Proof.
  intros Hnil. unfold process_song_data. cbv zeta.
  destruct (locate input_data) as [|f fl] eqn:Hloc; [done|].
  rewrite read_json_bind, Hnil by done. by rewrite columns_bind_none.
Qed.

Lemma after_dimensions_lookup spark df out fs (name : string) :
  name ≠ "/times" → name ≠ "/users" →
  after_dimensions spark df out fs !! (out +:+ name) = fs !! (out +:+ name).
Proof.
  intros H1 H2. unfold after_dimensions.
  rewrite !lookup_insert_ne; [done|by apply path_ne..].
Qed.

Lemma process_log_data_none spark input_data out fs :
  concat (locate input_data) = [] →
  process_log_data spark input_data out fs
  = (inl (no_record_error (locate input_data)), fs).
Proof.
  intros Hnil. unfold process_log_data. cbv zeta.
  destruct (locate input_data) as [|f fl] eqn:Hloc; [done|].
  rewrite read_json_bind, Hnil by done. by rewrite columns_bind_none.
Qed.

(** Once the log holds a record, the stage writes its two dimension
    tables and goes on to read the songs and artists tables back. *)
Lemma process_log_data_run spark input_data out fs :
  let log := concat (locate input_data) in
  let df := where_ next_song log in
  log ≠ [] →
  process_log_data spark input_data out fs
  = (song_df ← read_songs (out +:+ "/songs");
     artist_df ← read_artists (out +:+ "/artists");
     _ ← columns log ["artist"; "song"; "length"; "userId"; "level";
                      "sessionId"; "location"; "userAgent"];
     write_parquet (out +:+ "/songplays")
       (SongplaysData (songplays_table spark (with_start_time spark df)
                                       artist_df song_df)))
      (after_dimensions spark df out fs).
Proof.
  intros log df Hne. unfold process_log_data. cbv zeta.
  rewrite read_json_bind by by apply concat_nonempty.
  fold log. rewrite columns_bind_some by done. fold df.
  rewrite columns_bind_some, write_parquet_bind by done.
  by rewrite columns_bind_some, write_parquet_bind by done.
Qed.

Lemma process_log_data_some spark input_data out fs song_df artist_df :
  concat (locate input_data) ≠ [] →
  fs !! (out +:+ "/songs") = Some (SongsData song_df) →
  fs !! (out +:+ "/artists") = Some (ArtistsData artist_df) →
  let df := where_ next_song (concat (locate input_data)) in
  process_log_data spark input_data out fs
  = (inr (), <[out +:+ "/songplays" :=
                 SongplaysData (songplays_table spark (with_start_time spark df)
                                                artist_df song_df)]>
               (after_dimensions spark df out fs)).
Proof.
  intros Hne Hs Ha df. rewrite process_log_data_run by done. fold df.
  rewrite (read_songs_bind_some _ _ _ song_df)
    by (by rewrite after_dimensions_lookup).
  rewrite (read_artists_bind_some _ _ _ artist_df)
    by (by rewrite after_dimensions_lookup).
  by rewrite columns_bind_some by done.
Qed.
(** ** Stage 2: songplays *)

Lemma sql_eq_true {A} `{EqDecision A} (x y : option A) :
  sql_eq x y = true ↔ ∃ v, x = Some v ∧ y = Some v.
Proof.
  unfold sql_eq. destruct x as [a|], y as [b|];
    rewrite ?bool_decide_eq_true; split;
    try (intros (v & [=] & [=]); congruence); try done.
  intros ->. eauto.
Qed.

Lemma sql_eq_null_l {A} `{EqDecision A} (y : option A) : sql_eq None y = false.
Proof. reflexivity. Qed.

Lemma elem_of_join {A B} (cond : A → B → bool) df other a b :
  (a, b) ∈ join cond df other ↔ a ∈ df ∧ b ∈ other ∧ cond a b = true.
Proof.
  unfold join. rewrite list_elem_of_bind. split.
  - intros (a' & Hb & Ha).
    apply list_elem_of_bind in Hb as (b' & Hab & Hb).
    apply list_elem_of_singleton in Hab as [= -> ->].
    apply list_elem_of_filter in Hb as [Hc Hb].
    split_and!; [done..|]. by apply Is_true_true.
  - intros (Ha & Hb & Hc). exists a. split; [|done].
    apply list_elem_of_bind. exists b. split; [by apply list_elem_of_singleton|].
    apply list_elem_of_filter. split; [by apply Is_true_true|done].
Qed.

Lemma song_cond_exact_match e t a s :
  artist_cond (e, t) a = true ∧ song_cond (e, t, a) s = true ↔ exact_match e a s.
Proof.
  unfold artist_cond, song_cond, exact_match. simpl.
  rewrite !andb_true_iff, !sql_eq_true. tauto.
Qed.

Lemma join_app {A B} (cond : A → B → bool) df1 df2 other :
  join cond (df1 ++ df2) other = join cond df1 other ++ join cond df2 other.
Proof. unfold join. apply bind_app. Qed.

Lemma songplays_table_app spark df1 df2 artist_df song_df :
  songplays_table spark (df1 ++ df2) artist_df song_df
  = songplays_table spark df1 artist_df song_df ++ songplays_table spark df2 artist_df song_df.
Proof. unfold songplays_table, select. by rewrite !join_app, fmap_app. Qed.

(** The fact table is the concatenation of what each event gives rise to. *)
Lemma songplays_table_per_event spark df artist_df song_df :
  songplays_table spark (with_start_time spark df) artist_df song_df
  = (e ← df; songplays_of spark artist_df song_df e).
Proof.
  induction df as [|e df IH]; [done|].
  rewrite bind_cons, <- IH. unfold songplays_of.
  rewrite <- songplays_table_app. reflexivity.
Qed.

Lemma elem_of_songplays_of spark artist_df song_df e row :
  row ∈ songplays_of spark artist_df song_df e ↔
  ∃ a s, a ∈ artist_df ∧ s ∈ song_df ∧ exact_match e a s ∧
    row = songplay_columns spark (e, get_datetime spark (Event.ts e), a, s).
Proof.
  unfold songplays_of, songplays_table, select.
  change (with_start_time spark [e]) with [(e, get_datetime spark (Event.ts e))].
  rewrite list_elem_of_fmap. split.
  - intros ([[[e' t] a] s] & -> & Hj).
    apply elem_of_join in Hj as (Hj & Hs & Hc2).
    apply elem_of_join in Hj as (He & Ha & Hc1).
    apply list_elem_of_singleton in He as [= -> ->].
    exists a, s. split_and!; [done..| |done].
    by apply (song_cond_exact_match _ (get_datetime spark (Event.ts e))).
  - intros (a & s & Ha & Hs & Hm & ->).
    apply (song_cond_exact_match _ (get_datetime spark (Event.ts e))) in Hm as [Hc1 Hc2].
    exists (e, get_datetime spark (Event.ts e), a, s). split; [done|].
    apply elem_of_join. split_and!; [|done..].
    apply elem_of_join. split_and!; [|done..].
    by apply list_elem_of_singleton.
Qed.

Lemma songplays_of_no_match spark artist_df song_df e :
  (∀ a s, a ∈ artist_df → s ∈ song_df → ¬ exact_match e a s) →
  songplays_of spark artist_df song_df e = [].
Proof.
  intros Hno. apply elem_of_nil_inv. intros row Hrow.
  apply elem_of_songplays_of in Hrow as (a & s & Ha & Hs & Hm & _).
  by eapply Hno.
Qed.

(** C2: with the two dimensions persisted, stage 2 ends without error and
    persists a fact table that is the concatenation of the rows of each
    "NextSong" event; every row stems from an event, an artist row and a
    song row of the persisted tables that match exactly, and an event
    without such a match contributes no row. *)
Theorem songplays_rows_exact_match (spark : SparkSession)
    (input_data : Input Event.t) out (fs : gmap string Dataset)
    song_df artist_df :
  let events := concat (locate input_data) in
  events ≠ [] →
  fs !! (out +:+ "/songs") = Some (SongsData song_df) →
  fs !! (out +:+ "/artists") = Some (ArtistsData artist_df) →
  ∃ plays fs',
    process_log_data spark input_data out fs = (inr (), fs') ∧
    fs' !! (out +:+ "/songplays") = Some (SongplaysData plays) ∧
    plays = (e ← where_ next_song events;
             songplays_of spark artist_df song_df e) ∧
    (∀ row, row ∈ plays →
       ∃ e a s, e ∈ events ∧ Event.page e = Some "NextSong" ∧
         a ∈ artist_df ∧ s ∈ song_df ∧ exact_match e a s ∧
         row = songplay_columns spark (e, get_datetime spark (Event.ts e), a, s)) ∧
    (∀ e, (∀ a s, a ∈ artist_df → s ∈ song_df → ¬ exact_match e a s) →
       songplays_of spark artist_df song_df e = []).
Proof.
  intros events Hne Hs Ha. eexists _, _. split_and!.
  - by apply process_log_data_some.
  - apply lookup_insert_eq.
  - apply songplays_table_per_event.
  - intros row. rewrite songplays_table_per_event, list_elem_of_bind.
    intros (e & Hrow & [He Hp]%elem_of_where_next_song).
    apply elem_of_songplays_of in Hrow as (a & s & Hin_a & Hin_s & Hm & ->).
    exists e, a, s. by split_and!.
  - apply songplays_of_no_match.
Qed.

Lemma songplays_rows_exact_match_witness :
  let input_data := Local [[play_free]] in
  let events := concat (locate input_data) in
  let song_df := songs_table utc_session [catalog_A] in
  let artist_df := artists_table utc_session [catalog_A] in
  events ≠ [] ∧
  store_A !! ("data/output" +:+ "/songs") = Some (SongsData song_df) ∧
  store_A !! ("data/output" +:+ "/artists") = Some (ArtistsData artist_df) ∧
  ∃ plays fs',
    process_log_data utc_session input_data "data/output" store_A = (inr (), fs') ∧
    fs' !! ("data/output" +:+ "/songplays") = Some (SongplaysData plays) ∧
    plays = (e ← where_ next_song events;
             songplays_of utc_session artist_df song_df e) ∧
    (∀ row, row ∈ plays →
       ∃ e a s, e ∈ events ∧ Event.page e = Some "NextSong" ∧
         a ∈ artist_df ∧ s ∈ song_df ∧ exact_match e a s ∧
         row = songplay_columns utc_session (e, get_datetime utc_session (Event.ts e), a, s)) ∧
    (∀ e, (∀ a s, a ∈ artist_df → s ∈ song_df → ¬ exact_match e a s) →
       songplays_of utc_session artist_df song_df e = []).
Proof.
  intros input_data events song_df artist_df.
  assert (Hne : events ≠ []) by done.
  assert (Hs : store_A !! ("data/output" +:+ "/songs") = Some (SongsData song_df))
    by (vm_compute; reflexivity).
  assert (Ha : store_A !! ("data/output" +:+ "/artists")
               = Some (ArtistsData artist_df))
    by (vm_compute; reflexivity).
  split_and!; [done..|].
  exact (songplays_rows_exact_match utc_session input_data "data/output" store_A
           song_df artist_df Hne Hs Ha).
Defined.

Lemma bind_nil_filter {A B} `{EqDecision A} (f : A → list B) (x : A) l :
  f x = [] → (y ← l; f y) = (y ← filter (λ y, y ≠ x) l; f y).
Proof.
  intros Hx. induction l as [|a l IH]; [done|].
  rewrite filter_cons. destruct (decide (a ≠ x)) as [Hne|Heq].
  - by rewrite !bind_cons, IH.
  - apply dec_stable in Heq as ->. by rewrite bind_cons, Hx, IH.
Qed.

(** C10: an event whose artist, song or length is null gives rise to no
    fact row, and a log that holds it is processed without error: the
    persisted fact table is the one derived from the other events. *)
Theorem songplays_null_event_dropped (spark : SparkSession)
    (input_data : Input Event.t) out (fs : gmap string Dataset)
    song_df artist_df e :
  let events := concat (locate input_data) in
  Event.artist e = None ∨ Event.song e = None ∨ Event.length e = None →
  e ∈ events →
  fs !! (out +:+ "/songs") = Some (SongsData song_df) →
  fs !! (out +:+ "/artists") = Some (ArtistsData artist_df) →
  songplays_of spark artist_df song_df e = [] ∧
  ∃ fs',
    process_log_data spark input_data out fs = (inr (), fs') ∧
    fs' !! (out +:+ "/songplays")
    = Some (SongplaysData
              (e' ← filter (λ e', e' ≠ e) (where_ next_song events);
               songplays_of spark artist_df song_df e')).
Proof.
  intros events Hnull He Hs Ha.
  assert (Hnone : songplays_of spark artist_df song_df e = []).
  { apply songplays_of_no_match.
    intros a s _ _ ((n & Hn & _) & (t & Ht & _) & (d & Hd & _) & _).
    destruct Hnull as [H|[H|H]]; congruence. }
  split; [done|]. eexists. split.
  - apply process_log_data_some; [|done..].
    intros Hnil. subst events. rewrite Hnil in He. by apply elem_of_nil in He.
  - rewrite lookup_insert_eq, songplays_table_per_event.
    by rewrite (bind_nil_filter _ e).
Qed.

Lemma songplays_null_event_dropped_witness :
  let input_data := S3 [("log_data/2018/11/events.json",
                          [play_free; play_no_artist])] in
  let events := concat (locate input_data) in
  let song_df := songs_table utc_session [catalog_A] in
  let artist_df := artists_table utc_session [catalog_A] in
  Event.artist play_no_artist = None ∧
  play_no_artist ∈ events ∧
  store_A !! ("data/output" +:+ "/songs") = Some (SongsData song_df) ∧
  store_A !! ("data/output" +:+ "/artists") = Some (ArtistsData artist_df) ∧
  songplays_of utc_session artist_df song_df play_no_artist = [] ∧
  ∃ fs',
    process_log_data utc_session input_data "data/output" store_A = (inr (), fs') ∧
    fs' !! ("data/output" +:+ "/songplays")
    = Some (SongplaysData
              (e' ← filter (λ e', e' ≠ play_no_artist)
                           (where_ next_song events);
               songplays_of utc_session artist_df song_df e')).
Proof.
  intros input_data events song_df artist_df.
  assert (He : play_no_artist ∈ events) by by_compute.
  assert (Hs : store_A !! ("data/output" +:+ "/songs") = Some (SongsData song_df))
    by (vm_compute; reflexivity).
  assert (Ha : store_A !! ("data/output" +:+ "/artists")
               = Some (ArtistsData artist_df))
    by (vm_compute; reflexivity).
  split_and!; [reflexivity|done..|];
    apply (songplays_null_event_dropped utc_session input_data "data/output" store_A
             song_df artist_df play_no_artist);
    [by left|done..].
Defined.

(** ** Errors and reruns *)

(** C5: when the songs or the artists dataset is absent at the output
    location, stage 2 ends with an error and writes no fact table; once
    the log has been read, the error is the failed read of the absent
    dataset. *)
Theorem songplays_needs_stage1 (spark : SparkSession)
    (input_data : Input Event.t) out (fs : gmap string Dataset) :
  let events := concat (locate input_data) in
  fs !! (out +:+ "/songs") = None ∨ fs !! (out +:+ "/artists") = None →
  ∃ e fs',
    process_log_data spark input_data out fs = (inl e, fs') ∧
    fs' !! (out +:+ "/songplays") = fs !! (out +:+ "/songplays") ∧
    (events ≠ [] → fs !! (out +:+ "/songs") = None →
       e = AnalysisException (out +:+ "/songs")) ∧
    (events ≠ [] →
       (∃ rows, fs !! (out +:+ "/songs") = Some (SongsData rows)) →
       e = AnalysisException (out +:+ "/artists")).
Proof.
  intros events Habsent.
  destruct (decide (events = [])) as [Hnil|Hne].
  { rewrite process_log_data_none by done. eexists _, _. by split_and!. }
  set (df := where_ next_song events).
  assert (Hsp : after_dimensions spark df out fs !! (out +:+ "/songplays")
                = fs !! (out +:+ "/songplays")).
  { by apply after_dimensions_lookup. }
  rewrite process_log_data_run by done. fold events df.
  destruct (fs !! (out +:+ "/songs")) as [d|] eqn:Hs.
  - destruct Habsent as [?|Ha]; [done|].
    assert (Hs' : after_dimensions spark df out fs !! (out +:+ "/songs") = Some d)
      by (by rewrite after_dimensions_lookup).
    destruct d as [rows| | | |];
      [|rewrite (read_songs_bind_other _ _ _ _ Hs') by done;
        eexists _, _; split_and!; [done..|]; by intros _ [? [=]]..].
    rewrite (read_songs_bind_some _ _ _ rows) by done.
    rewrite read_artists_bind_none by (by rewrite after_dimensions_lookup).
    eexists _, _. by split_and!.
  - rewrite read_songs_bind_none by (by rewrite after_dimensions_lookup).
    eexists _, _. split_and!; [done..|]. by intros _ [rows ?].
Qed.

Lemma songplays_needs_stage1_witness :
  (∅ : gmap string Dataset) !! ("data/output" +:+ "/songs") = None ∧
  ∃ e fs',
    process_log_data utc_session (Local [[play_free]]) "data/output" ∅ = (inl e, fs') ∧
    fs' !! ("data/output" +:+ "/songplays") = None ∧
    e = AnalysisException "data/output/songs".
Proof.
  assert (H0 : (∅ : gmap string Dataset) !! ("data/output" +:+ "/songs") = None)
    by reflexivity.
  split; [done|].
  destruct (songplays_needs_stage1 utc_session (Local [[play_free]]) "data/output" ∅
              (or_introl H0))
    as (e & fs' & Hrun & Hsp & Hsongs & _).
  exists e, fs'. split_and!; [done|by rewrite Hsp|by apply Hsongs].
Defined.

(** C6, as the code has it: when no source object is located for either
    dataset, each stage ends with the error of the refused read and leaves
    the output location as it was; no table, empty or not, is written. *)
Theorem zero_match_read_error (spark : SparkSession)
    (song_input : Input SongRecord.t) (log_input : Input Event.t)
    out (fs : gmap string Dataset) :
  locate song_input = [] → locate log_input = [] →
  process_song_data spark song_input out fs
    = (inl (AnalysisException "json"), fs) ∧
  process_log_data spark log_input out fs
    = (inl (AnalysisException "json"), fs).
Proof.
  intros Hs Hl. unfold process_song_data, process_log_data.
  by rewrite Hs, Hl.
Qed.

Lemma zero_match_read_error_witness :
  let song_input := S3 [("song_data/README.md", [catalog_A])] in
  let log_input := Local [] in
  locate song_input = [] ∧ locate log_input = [] ∧
  process_song_data utc_session song_input "data/output" ∅
    = (inl (AnalysisException "json"), ∅) ∧
  process_log_data utc_session log_input "data/output" ∅
    = (inl (AnalysisException "json"), ∅).
Proof.
  intros song_input log_input.
  split_and!; [reflexivity..| |];
    apply (zero_match_read_error utc_session song_input log_input
             "data/output" ∅);
    reflexivity.
Defined.

(** C6 fails on an empty listing and on a glob without a match: neither
    stage ends without error, and no empty songs table appears at the
    output location. *)
Lemma zero_match_not_graceful :
  (process_song_data utc_session (S3 []) "data/output" ∅).1 ≠ inr () ∧
  (process_log_data utc_session (Local []) "data/output" ∅).1 ≠ inr () ∧
  (process_song_data utc_session (S3 []) "data/output" ∅).2
    !! "data/output/songs" ≠ Some (SongsData []).
Proof. split_and!; by vm_compute. Qed.


(** ** The whole run *)


Lemma main_no_song spark song_files log_files (fs : gmap string Dataset) :
  concat song_files = [] →
  main spark song_files log_files fs = (inl (no_record_error song_files), fs).
Proof.
  intros Hs. unfold main, mbind, Job_bind.
  by rewrite process_song_data_none.
Qed.

Lemma main_no_log spark song_files log_files (fs : gmap string Dataset) :
  concat song_files ≠ [] → concat log_files = [] →
  main spark song_files log_files fs
  = (inl (no_record_error log_files),
     <["data/output/artists" :=
         ArtistsData (artists_table spark (concat song_files))]>
       (<["data/output/songs" :=
            SongsData (songs_table spark (concat song_files))]> fs)).
Proof.
  intros Hs Hl. unfold main, mbind, Job_bind.
  rewrite process_song_data_some by done.
  by rewrite process_log_data_none.
Qed.

(** C8 fails on the two plays of user 1: a first run on a session that
    leaves the rows in place and a second run, on the same input and the
    same host, on a session that delivers them in reverse both succeed,
    but the users table holds the level "paid" after the first and "free"
    after the second: the two users tables do not hold the same rows. *)
Theorem main_rerun_changes_users :
  let first := main utc_session [[catalog_A]] [[play_free; play_paid]] ∅ in
  let second :=
    main reversing_session [[catalog_A]] [[play_free; play_paid]] first.2 in
  first.1 = inr () ∧ second.1 = inr () ∧
  first.2 !! "data/output/users" = Some (UsersData [user_paid]) ∧
  second.2 !! "data/output/users" = Some (UsersData [user_free]) ∧
  ¬ option_Forall2 rows_equiv (second.2 !! "data/output/users")
                              (first.2 !! "data/output/users").
Proof.
  intros first second.
  assert (H1 : first.2 !! "data/output/users" = Some (UsersData [user_paid]))
    by (vm_compute; reflexivity).
  assert (H2 : second.2 !! "data/output/users" = Some (UsersData [user_free]))
    by (vm_compute; reflexivity).
  split_and!; [vm_compute; reflexivity..|done|done|].
  rewrite H1, H2. intros Hequiv. inversion Hequiv as [d1 d2 Hrows|]; subst.
  simpl in Hrows. apply Permutation_singleton_inj in Hrows. discriminate Hrows.
Qed.

(** * Further properties of the two stages *)

(** ** The catalog tables *)

(** The songs table holds every projected catalog row, each one once. *)
Theorem songs_table_rows (spark : SparkSession) (df : list SongRecord.t) :
  NoDup (songs_table spark df) ∧
  ∀ row, row ∈ songs_table spark df ↔ ∃ r, r ∈ df ∧ row = song_columns r.
Proof.
  split; [apply NoDup_dropDuplicates|].
  intros row. unfold songs_table, select.
  rewrite elem_of_dropDuplicates, list_elem_of_fmap.
  split; intros (r & H1 & H2); eauto.
Qed.

(** The order in which the catalog records are read changes neither table
    but for the order of its rows. *)
Theorem catalog_tables_order_independent (spark : SparkSession)
    (df1 df2 : list SongRecord.t) :
  df1 ≡ₚ df2 →
  songs_table spark df1 ≡ₚ songs_table spark df2 ∧
  artists_table spark df1 ≡ₚ artists_table spark df2.
Proof.
  intros Hperm. split; apply NoDup_Permutation;
    try apply NoDup_dropDuplicates; intros row;
    unfold songs_table, artists_table, select;
    by rewrite !elem_of_dropDuplicates, Hperm.
Qed.

Lemma catalog_tables_order_independent_witness :
  [catalog_A; catalog_A_located] ≡ₚ [catalog_A_located; catalog_A] ∧
  songs_table utc_session [catalog_A; catalog_A_located]
    ≡ₚ songs_table utc_session [catalog_A_located; catalog_A] ∧
  artists_table utc_session [catalog_A; catalog_A_located]
    ≡ₚ artists_table utc_session [catalog_A_located; catalog_A].
Proof.
  assert (H : [catalog_A; catalog_A_located] ≡ₚ [catalog_A_located; catalog_A])
    by by_compute.
  split; [done|].
  by apply (catalog_tables_order_independent utc_session
              [catalog_A; catalog_A_located] [catalog_A_located; catalog_A]).
Defined.

(** ** The users table *)

(** The users table has one row for every identity key that occurs in a
    "NextSong" event, and no two rows with one key. *)
Theorem users_table_one_row_per_key (spark : SparkSession)
    (events : list Event.t) :
  NoDup (user_key <$> users_table spark (where_ next_song events)) ∧
  ∀ e, e ∈ events → Event.page e = Some "NextSong" →
    ∃ row, row ∈ users_table spark (where_ next_song events) ∧
      user_key row = user_key (user_columns e).
Proof.
  split; [apply dropDuplicates_seen_NoDup|].
  intros e He Hp. unfold users_table, select.
  apply (dropDuplicates_subset_covers user_key spark _ (user_columns e)).
  apply list_elem_of_fmap. exists e. split; [done|].
  by apply elem_of_sort_ts_desc, elem_of_where_next_song.
Qed.

(** ** What the stages write *)

(** Stage 1 touches no path but its two tables. *)
Theorem process_song_data_frame (spark : SparkSession)
    (input_data : Input SongRecord.t) out (fs : gmap string Dataset) path :
  path ≠ out +:+ "/songs" → path ≠ out +:+ "/artists" →
  (process_song_data spark input_data out fs).2 !! path = fs !! path.
Proof.
  intros Hs Ha.
  destruct (decide (concat (locate input_data) = [])) as [Hnil|Hne].
  - by rewrite process_song_data_none.
  - rewrite process_song_data_some by done. simpl.
    by rewrite !lookup_insert_ne.
Qed.

Lemma process_song_data_frame_witness :
  "data/output/users" ≠ "data/output" +:+ "/songs" ∧
  "data/output/users" ≠ "data/output" +:+ "/artists" ∧
  (process_song_data utc_session (Local [[catalog_A]]) "data/output" ∅).2
    !! "data/output/users" = None.
Proof.
  assert (H1 : "data/output/users" ≠ "data/output" +:+ "/songs") by done.
  assert (H2 : "data/output/users" ≠ "data/output" +:+ "/artists") by done.
  split_and!; [done..|].
  by rewrite (process_song_data_frame utc_session (Local [[catalog_A]]) "data/output" ∅
                "data/output/users" H1 H2).
Defined.

(** Once the log holds a record, the stage depends on the log through
    its "NextSong" events only. *)
Lemma process_log_data_outcome spark
    (input_data : Input Event.t) out (fs : gmap string Dataset) :
  let events := concat (locate input_data) in
  events ≠ [] →
  process_log_data spark input_data out fs
  = stage2_outcome spark (where_ next_song events) out fs.
Proof.
  intros events Hne. rewrite process_log_data_run by done. fold events.
  set (df := where_ next_song events). unfold stage2_outcome.
  assert (Hls : after_dimensions spark df out fs !! (out +:+ "/songs")
                = fs !! (out +:+ "/songs"))
    by (by apply after_dimensions_lookup).
  assert (Hla : after_dimensions spark df out fs !! (out +:+ "/artists")
                = fs !! (out +:+ "/artists"))
    by (by apply after_dimensions_lookup).
  destruct (fs !! (out +:+ "/songs")) as [ds|] eqn:Hs;
    [|by rewrite read_songs_bind_none].
  destruct ds as [song_df| | | |];
    [|by rewrite (read_songs_bind_other _ _ _ _ Hls)..].
  rewrite (read_songs_bind_some _ _ _ song_df) by done.
  destruct (fs !! (out +:+ "/artists")) as [da|] eqn:Ha;
    [|by rewrite read_artists_bind_none].
  destruct da as [|artist_df| | |];
    try by rewrite (read_artists_bind_other _ _ _ _ Hla).
  rewrite (read_artists_bind_some _ _ _ artist_df) by done.
  by rewrite columns_bind_some by done.
Qed.

(** It leaves the output location either with its two dimension tables
    written, when it stops at an error, or with the fact table written on
    top of them. *)
Lemma process_log_data_store spark
    (input_data : Input Event.t) out (fs : gmap string Dataset) :
  let events := concat (locate input_data) in
  let df := where_ next_song events in
  events ≠ [] →
  (∃ e, process_log_data spark input_data out fs
        = (inl e, after_dimensions spark df out fs)) ∨
  (∃ song_df artist_df,
     fs !! (out +:+ "/songs") = Some (SongsData song_df) ∧
     fs !! (out +:+ "/artists") = Some (ArtistsData artist_df) ∧
     process_log_data spark input_data out fs
     = (inr (), <[out +:+ "/songplays" :=
                    SongplaysData (songplays_table spark (with_start_time spark df)
                                                   artist_df song_df)]>
                  (after_dimensions spark df out fs))).
Proof.
  intros events df Hne. rewrite process_log_data_outcome by done.
  fold events df. unfold stage2_outcome.
  destruct (fs !! (out +:+ "/songs")) as [[song_df| | | |]|];
    destruct (fs !! (out +:+ "/artists")) as [[|artist_df| | |]|];
    eauto 10.
Qed.

(** Stage 2 touches no path but its three tables; in particular it never
    changes the songs and artists tables it reads. *)
Theorem process_log_data_frame (spark : SparkSession)
    (input_data : Input Event.t) out (fs : gmap string Dataset) path :
  path ≠ out +:+ "/users" → path ≠ out +:+ "/times" →
  path ≠ out +:+ "/songplays" →
  (process_log_data spark input_data out fs).2 !! path = fs !! path.
Proof.
  intros Hu Ht Hp.
  destruct (decide (concat (locate input_data) = [])) as [Hnil|Hne].
  { by rewrite process_log_data_none. }
  destruct (process_log_data_store spark input_data out fs Hne)
    as [[e ->]|(song_df & artist_df & _ & _ & ->)]; simpl;
    unfold after_dimensions; by rewrite !lookup_insert_ne.
Qed.

Lemma process_log_data_frame_witness :
  "data/output/songs" ≠ "data/output" +:+ "/users" ∧
  "data/output/songs" ≠ "data/output" +:+ "/times" ∧
  "data/output/songs" ≠ "data/output" +:+ "/songplays" ∧
  (process_log_data utc_session (Local [[play_free]]) "data/output" store_A).2
    !! "data/output/songs" = store_A !! "data/output/songs".
Proof.
  assert (H1 : "data/output/songs" ≠ "data/output" +:+ "/users") by done.
  assert (H2 : "data/output/songs" ≠ "data/output" +:+ "/times") by done.
  assert (H3 : "data/output/songs" ≠ "data/output" +:+ "/songplays") by done.
  split_and!; [done..|].
  exact (process_log_data_frame utc_session (Local [[play_free]]) "data/output" store_A
           "data/output/songs" H1 H2 H3).
Defined.



Lemma next_song_false (e : Event.t) :
  Event.page e ≠ Some "NextSong" → next_song e = false.
Proof.
  intros Hp. unfold next_song, sql_eq.
  destruct (Event.page e) as [p|]; [|done].
  apply bool_decide_eq_false. congruence.
Qed.

(** An event of another page is filtered out before any table is derived:
    as long as the log holds another record, the stage ends with the same
    result and leaves the same output location as without the event. *)
Theorem other_pages_ignored (spark : SparkSession)
    (input1 input2 : Input Event.t) (pre post : list Event.t) (e : Event.t)
    out (fs : gmap string Dataset) :
  concat (locate input1) = pre ++ e :: post →
  concat (locate input2) = pre ++ post →
  pre ++ post ≠ [] →
  Event.page e ≠ Some "NextSong" →
  process_log_data spark input1 out fs = process_log_data spark input2 out fs.
Proof.
  intros H1 H2 Hne Hp.
  assert (Hw : where_ next_song (pre ++ e :: post)
               = where_ next_song (pre ++ post)).
  { unfold where_. rewrite !filter_app, filter_cons.
    by rewrite (next_song_false e Hp). }
  rewrite !process_log_data_outcome.
  - by rewrite H1, H2, Hw.
  - by rewrite H2.
  - rewrite H1. by destruct pre.
Qed.

Lemma other_pages_ignored_witness :
  let home := Event.mk (Some "Home") 1500 (Some "1") (Some "Ann") (Some "Lee")
                (Some "F") (Some "free") (Some 7) None None None None None in
  process_log_data utc_session (Local [[play_free; home]; [play_paid]]) "data/output" store_A
  = process_log_data utc_session (Local [[play_free; play_paid]]) "data/output" store_A.
Proof.
  intros home.
  apply (other_pages_ignored utc_session _ _ [play_free] [play_paid] home);
    [reflexivity|reflexivity|done|done].
Defined.

Lemma users_table_nil spark : users_table spark [] = [].
Proof.
  unfold users_table, dropDuplicates_subset.
  change (select user_columns (sort_ts_desc [])) with (@nil User.t).
  pose proof (exchange_perm spark User.t []) as Hperm.
  apply Permutation_nil_r in Hperm. by rewrite Hperm.
Qed.

(** A log that holds records but no "NextSong" event is no error: with
    songs and artists persisted, the stage writes three empty tables. *)
Theorem no_next_song_empty_tables (spark : SparkSession)
    (input_data : Input Event.t) out (fs : gmap string Dataset)
    song_df artist_df :
  let events := concat (locate input_data) in
  events ≠ [] →
  (∀ e, e ∈ events → Event.page e ≠ Some "NextSong") →
  fs !! (out +:+ "/songs") = Some (SongsData song_df) →
  fs !! (out +:+ "/artists") = Some (ArtistsData artist_df) →
  process_log_data spark input_data out fs
  = (inr (), <[out +:+ "/songplays" := SongplaysData []]>
               (<[out +:+ "/times" := TimesData []]>
                  (<[out +:+ "/users" := UsersData []]> fs))).
Proof.
  intros events Hne Hall Hs Ha.
  rewrite (process_log_data_some _ _ _ _ song_df artist_df) by done.
  fold events.
  assert (Hw : where_ next_song events = []).
  { apply elem_of_nil_inv. intros e [He Hp]%elem_of_where_next_song.
    by apply (Hall e). }
  rewrite Hw. unfold after_dimensions. by rewrite users_table_nil.
Qed.

Lemma no_next_song_empty_tables_witness :
  let home := Event.mk (Some "Home") 1500 (Some "1") (Some "Ann") (Some "Lee")
                (Some "F") (Some "free") (Some 7) None None None None None in
  ∃ fs',
    process_log_data utc_session (Local [[home]]) "data/output" store_A = (inr (), fs') ∧
    fs' !! "data/output/users" = Some (UsersData []) ∧
    fs' !! "data/output/times" = Some (TimesData []) ∧
    fs' !! "data/output/songplays" = Some (SongplaysData []).
Proof.
  intros home. eexists. split.
  - apply (no_next_song_empty_tables utc_session (Local [[home]]) "data/output" store_A
             (songs_table utc_session [catalog_A]) (artists_table utc_session [catalog_A]));
      [done| |vm_compute; reflexivity|vm_compute; reflexivity].
    intros e He. apply list_elem_of_In in He. simpl in He.
    destruct He as [<-|[]]. done.
  - split_and!; vm_compute; reflexivity.
Defined.

(** Source objects that hold no record: the read succeeds, but the frame
    has no column, and the stage stops at its first column reference
    without writing anything. *)
Theorem no_record_attribute_error (spark : SparkSession)
    (song_input : Input SongRecord.t) (log_input : Input Event.t)
    out (fs : gmap string Dataset) :
  locate song_input ≠ [] → concat (locate song_input) = [] →
  locate log_input ≠ [] → concat (locate log_input) = [] →
  process_song_data spark song_input out fs = (inl AttributeError, fs) ∧
  process_log_data spark log_input out fs = (inl AttributeError, fs).
Proof.
  intros Hs Hsn Hl Hln.
  rewrite process_song_data_none, process_log_data_none by done.
  by destruct (locate song_input), (locate log_input).
Qed.

Lemma no_record_attribute_error_witness :
  process_song_data utc_session (Local [[]; []]) "data/output" ∅ = (inl AttributeError, ∅) ∧
  process_log_data utc_session (S3 [("log_data/2018-11-01-events.json", [])])
                   "data/output" ∅ = (inl AttributeError, ∅).
Proof.
  apply (no_record_attribute_error utc_session (Local [[]; []])
           (S3 [("log_data/2018-11-01-events.json", [])]) "data/output" ∅);
    done.
Defined.

(** ** Locating the input *)

Lemma substring_all (s : string) :
  String.substring 0 (String.length s) s = s.
Proof. induction s as [|c s IH]; simpl; [done|by rewrite IH]. Qed.

Lemma substring_suffix (stem suffix : string) :
  String.substring (String.length stem) (String.length suffix) (stem +:+ suffix)
  = suffix.
Proof.
  induction stem as [|c stem IH]; [exact (substring_all suffix)|exact IH].
Qed.

Lemma length_append (s1 s2 : string) :
  String.length (s1 +:+ s2) = (String.length s1 + String.length s2)%nat.
Proof.
  induction s1 as [|c s1 IH]; [done|].
  change (S (String.length (s1 +:+ s2))
          = S (String.length s1 + String.length s2)). by rewrite IH.
Qed.

Lemma substring_split (s : string) (k : nat) :
  (k ≤ String.length s)%nat →
  s = String.substring 0 k s +:+ String.substring k (String.length s - k) s.
Proof.
  revert k. induction s as [|c s IH]; intros k Hk.
  - destruct k; [done|simpl in Hk; lia].
  - destruct k as [|k].
    + by rewrite Nat.sub_0_r, substring_all.
    + change (String c s
              = String c (String.substring 0 k s
                          +:+ String.substring k (String.length s - k) s)).
      f_equal. apply IH. simpl in Hk. lia.
Qed.

Lemma endswith_spec (key suffix : string) :
  endswith key suffix = true ↔ ∃ stem, key = stem +:+ suffix.
Proof.
  unfold endswith. rewrite andb_true_iff, Nat.leb_le, bool_decide_eq_true.
  split.
  - intros [Hle Hsub].
    exists (String.substring 0 (String.length key - String.length suffix) key).
    pose proof (substring_split key
                  (String.length key - String.length suffix) ltac:(lia))
      as Hsplit.
    replace (String.length key - (String.length key - String.length suffix))%nat
      with (String.length suffix) in Hsplit by lia.
    by rewrite Hsub in Hsplit.
  - intros [stem ->]. rewrite length_append. split; [lia|].
    replace (String.length stem + String.length suffix - String.length suffix)%nat
      with (String.length stem) by lia.
    apply substring_suffix.
Qed.

(** Of a bucket listing, the stage reads the objects whose key is some
    stem followed by ".json", and only these; the files matched by a local
    glob pattern are read as they are. *)
Theorem locate_json_objects {R} (listing : list (string * list R))
    (matched : list (list R)) :
  (∀ records, records ∈ locate (S3 listing) ↔
     ∃ stem, (stem +:+ ".json", records) ∈ listing) ∧
  locate (Local matched) = matched.
Proof.
  split; [|done]. intros records. unfold locate.
  rewrite list_elem_of_fmap. split.
  - intros ([key rs] & -> & [Hk Hin]%list_elem_of_filter). simpl in *.
    apply Is_true_true, endswith_spec in Hk as [stem ->]. eauto.
  - intros [stem Hin]. exists (stem +:+ ".json", records). split; [done|].
    apply list_elem_of_filter. split; [|done].
    apply Is_true_true, endswith_spec. eauto.
Qed.

(** ** The fact table *)

Lemma length_filter_fmap {A B} (P : B → Prop) `{∀ x, Decision (P x)}
    (f : A → B) (l : list A) :
  length (filter P (f <$> l)) = length (filter (λ x, P (f x)) l).
Proof.
  induction l as [|x l IH]; [done|].
  rewrite fmap_cons, !filter_cons.
  destruct (decide (P (f x))); simpl; by rewrite IH.
Qed.

Lemma join_cons {A B} (cond : A → B → bool) x df other :
  join cond (x :: df) other
  = ((x ,.) <$> filter (cond x) other) ++ join cond df other.
Proof.
  unfold join. rewrite bind_cons. by f_equal.
Qed.

Lemma length_bind_singleton {A B} (f : A → B) (l : list A) :
  length (l ≫= λ x, [f x]) = length l.
Proof. induction l as [|x l IH]; [done|]. rewrite bind_cons. simpl. by rewrite IH. Qed.

(** The fact table is not deduplicated: an event gives rise to one row
    for every pair of an artist row and a song row that satisfies the two
    join conditions, that is, that matches it exactly. *)
Theorem songplays_fan_out (spark : SparkSession)
    (artist_df : list Artist.t) (song_df : list Song.t)
    (e : Event.t) :
  (∀ a s, exact_matchb spark e a s = true ↔ exact_match e a s) ∧
  length (songplays_of spark artist_df song_df e)
  = length (filter (λ p, exact_matchb spark e p.1 p.2) (cprod artist_df song_df)).
Proof.
  split.
  { intros a s. unfold exact_matchb. rewrite andb_true_iff.
    apply song_cond_exact_match. }
  unfold songplays_of, songplays_table, select.
  change (with_start_time spark [e]) with [(e, get_datetime spark (Event.ts e))].
  rewrite length_fmap, (join_cons artist_cond _ [] artist_df).
  change (join artist_cond [] artist_df) with (@nil (Event.t * Z * Artist.t)).
  rewrite app_nil_r. unfold cprod, list_cprod, exact_matchb.
  set (r := (e, get_datetime spark (Event.ts e))).
  induction artist_df as [|a artist_df IH]; [done|].
  rewrite bind_cons, filter_app, length_app, <- IH, length_filter_fmap.
  rewrite filter_cons. simpl.
  destruct (artist_cond r a) eqn:Hc; simpl.
  - by rewrite length_app, (length_bind_singleton (λ b, (r, a, b))).
  - assert (Hnone : filter (λ _ : Song.t, False) song_df = []).
    { clear. induction song_df as [|s song_df IHs]; [done|].
      rewrite filter_cons. by destruct (decide False). }
    by rewrite Hnone.
Qed.

(** ** The whole run *)



(** When either dataset holds no record, the run ends with an error and
    writes none of the users, times and songplays tables; when it is the
    catalog that holds none, stage 2 is not run and nothing is written. *)
Theorem main_failure (spark : SparkSession) song_files log_files
    (fs : gmap string Dataset) :
  concat song_files = [] ∨ concat log_files = [] →
  let run := main spark song_files log_files fs in
  (∃ e, run.1 = inl e) ∧
  run.2 !! "data/output/users" = fs !! "data/output/users" ∧
  run.2 !! "data/output/times" = fs !! "data/output/times" ∧
  run.2 !! "data/output/songplays" = fs !! "data/output/songplays" ∧
  (concat song_files = [] → run.2 = fs).
Proof.
  intros Hnone run. subst run.
  destruct (decide (concat song_files = [])) as [Hs|Hs].
  { rewrite main_no_song by done. simpl. split_and!; eauto. }
  destruct Hnone as [?|Hl]; [done|].
  rewrite main_no_log by done. simpl.
  split_and!; [eauto|by rewrite !lookup_insert_ne..|done].
Qed.

Lemma main_failure_witness :
  concat [[catalog_A]; []] ≠ [] ∧ concat ([[]] : list (list Event.t)) = [] ∧
  (∃ e, (main utc_session [[catalog_A]; []] [[]] ∅).1 = inl e) ∧
  (main utc_session [[catalog_A]; []] [[]] ∅).2 !! "data/output/users" = None.
Proof.
  assert (H : concat ([[]] : list (list Event.t)) = []) by reflexivity.
  destruct (main_failure utc_session [[catalog_A]; []] [[]] ∅ (or_intror H))
    as (He & Hu & _).
  split_and!; [done|done|exact He|exact Hu].
Defined.

(** ** A second run *)











